(** * InstructionCount: the instruction counter of the SourceKit stress tester

    The module's public header,
    [Sources/InstructionCount/include/InstructionCount.h], declares one
    function, [get_current_instruction_count].  This development has two
    parts:

    - [Module Header]: the header's text, a small reader for the
      declarations of such a header (comments, preprocessor lines,
      declarations) and what a C or a C++ translation unit makes of the
      declaration it finds;
    - [Module Counter]: the behaviour of the function behind the
      declaration.  Its body is not part of the header, so that part follows
      the design document of the module. *)

From Stdlib Require Import NArith Lia Ascii String Sorted.
From stdpp Require Import gmap strings list.

Module Header.

Local Open Scope string_scope.

(** ** The text of InstructionCount.h, line by line (21 lines, the last one
    without a final newline). *)

Definition InstructionCount_h : list string :=
  [ "//===----------------------------------------------------------------------===//";
    "//";
    "// This source file is part of the Swift.org open source project";
    "//";
    "// Copyright (c) 2014 - 2019 Apple Inc. and the Swift project authors";
    "// Licensed under Apache License v2.0 with Runtime Library Exception";
    "//";
    "// See https://swift.org/LICENSE.txt for license information";
    "// See https://swift.org/CONTRIBUTORS.txt for the list of Swift project authors";
    "//";
    "//===----------------------------------------------------------------------===//";
    EmptyString;
    "#ifndef InstructionCount_h";
    "#define InstructionCount_h";
    EmptyString;
    "#include <stdint.h>";
    EmptyString;
    "/// Returns the number of instructions this process has executed since it was launched.";
    "uint64_t get_current_instruction_count();";
    EmptyString;
    "#endif /* InstructionCount_h */" ].

(** ** Characters *)

Definition newline : ascii := ascii_of_nat 10.
Definition dquote : ascii := ascii_of_nat 34.

Definition is_char (c d : ascii) : bool := Ascii.eqb c d.

Definition is_space (c : ascii) : bool :=
  let n := nat_of_ascii c in
  Nat.eqb n 32 || Nat.eqb n 9 || Nat.eqb n 10 || Nat.eqb n 13.

Definition is_ident_char (c : ascii) : bool :=
  let n := nat_of_ascii c in
  (Nat.leb 48 n && Nat.leb n 57) || (Nat.leb 65 n && Nat.leb n 90)
  || (Nat.leb 97 n && Nat.leb n 122) || Nat.eqb n 95.

Definition word (rev_chars : list ascii) : string :=
  string_of_list_ascii (rev rev_chars).

(** The whole file as one character stream. *)
Fixpoint join_lines (ls : list string) : list ascii :=
  match ls with
  | [] => []
  | [l] => list_ascii_of_string l
  | l :: ls' => list_ascii_of_string l ++ newline :: join_lines ls'
  end.

(** ** Comments

    A comment is replaced by one space.  A line comment ends at the newline,
    which stays; a block comment ends at its closing mark. *)

Inductive CMode := Code | StrLit | LineComment | BlockComment.

Fixpoint strip_comments (m : CMode) (cs : list ascii) : list ascii :=
  match cs with
  | [] => []
  | c :: tl =>
      match m with
      | LineComment =>
          if is_char c newline then c :: strip_comments Code tl
          else strip_comments LineComment tl
      | BlockComment =>
          match tl with
          | c2 :: rest =>
              if is_char c "*" && is_char c2 "/"
              then " "%char :: strip_comments Code rest
              else strip_comments BlockComment tl
          | [] => []
          end
      | StrLit =>
          c :: strip_comments (if is_char c dquote then Code else StrLit) tl
      | Code =>
          match tl with
          | c2 :: rest =>
              if is_char c "/" && is_char c2 "/"
              then " "%char :: strip_comments LineComment rest
              else if is_char c "/" && is_char c2 "*"
              then strip_comments BlockComment rest
              else c :: strip_comments (if is_char c dquote then StrLit else Code) tl
          | [] => [c]
          end
      end
  end.

Fixpoint split_lines (cur : list ascii) (cs : list ascii) : list (list ascii) :=
  match cs with
  | [] => [rev cur]
  | c :: cs' =>
      if is_char c newline then rev cur :: split_lines [] cs'
      else split_lines (c :: cur) cs'
  end.

(** ** Tokens *)

Inductive Token :=
| TIdent (s : string)
| TStr (s : string)
| TPunct (c : ascii).

Inductive LexMode :=
| Idle
| InWord (acc : list ascii)
| InStr (acc : list ascii).

Definition start_token (c : ascii) : LexMode * list Token :=
  if is_ident_char c then (InWord [c], [])
  else if is_char c dquote then (InStr [], [])
  else if is_space c then (Idle, [])
  else (Idle, [TPunct c]).

Fixpoint tokenize (m : LexMode) (cs : list ascii) : list Token :=
  match cs with
  | [] =>
      match m with
      | Idle => []
      | InWord acc => [TIdent (word acc)]
      | InStr acc => [TStr (word acc)]
      end
  | c :: cs' =>
      match m with
      | Idle => let '(m', out) := start_token c in out ++ tokenize m' cs'
      | InWord acc =>
          if is_ident_char c then tokenize (InWord (c :: acc)) cs'
          else TIdent (word acc) :: (let '(m', out) := start_token c in out ++ tokenize m' cs')
      | InStr acc =>
          if is_char c dquote then TStr (word acc) :: tokenize Idle cs'
          else tokenize (InStr (c :: acc)) cs'
      end
  end.

Definition token_text (t : Token) : string :=
  match t with
  | TIdent s => s
  | TStr s => s
  | TPunct c => String c EmptyString
  end.

Definition is_punct (c : ascii) (t : Token) : bool :=
  match t with TPunct d => is_char c d | _ => false end.

Definition is_ident (s : string) (t : Token) : bool :=
  match t with TIdent s' => String.eqb s s' | _ => false end.

Definition is_str (s : string) (t : Token) : bool :=
  match t with TStr s' => String.eqb s s' | _ => false end.

(** ** Preprocessor lines

    A line whose first token is [#] is a directive; every other line is
    code. *)

Inductive Directive :=
| Ifndef (macro : string)
| Ifdef (macro : string)
| If (condition : list Token)
| Else
| Endif
| Define (macro : string) (body : list Token)
| Include (file : string)
| OtherDirective (name : string) (rest : list Token).

Definition concat_text (ts : list Token) : string :=
  fold_right (fun t acc => String.append (token_text t) acc) EmptyString ts.

Definition parse_directive (ts : list Token) : Directive :=
  match ts with
  | TIdent "ifndef" :: TIdent m :: _ => Ifndef m
  | TIdent "ifdef" :: TIdent m :: _ => Ifdef m
  | TIdent "if" :: cond => If cond
  | TIdent "elif" :: cond => If cond
  | TIdent "else" :: _ => Else
  | TIdent "endif" :: _ => Endif
  | TIdent "define" :: TIdent m :: body => Define m body
  | TIdent "include" :: TStr f :: _ => Include f
  | TIdent "include" :: TPunct "<" :: rest => Include (concat_text (removelast rest))
  | TIdent d :: rest => OtherDirective d rest
  | rest => OtherDirective EmptyString rest
  end.

Inductive Line :=
| LDirective (d : Directive)
| LCode (ts : list Token).

Definition classify (cs : list ascii) : Line :=
  match tokenize Idle cs with
  | TPunct "#" :: ts => LDirective (parse_directive ts)
  | ts => LCode ts
  end.

Definition lines_of (src : list string) : list Line :=
  map classify (split_lines [] (strip_comments Code (join_lines src))).

Definition directives_of (ls : list Line) : list Directive :=
  flat_map (fun l => match l with LDirective d => [d] | LCode _ => [] end) ls.

Definition code_of (ls : list Line) : list Token :=
  flat_map (fun l => match l with LDirective _ => [] | LCode ts => ts end) ls.

(** ** Declarations

    The code tokens are cut into statements at every [;].  A brace that
    follows [extern "C"] opens a linkage block, which the next closing brace
    ends (headers of this kind do not nest braces). *)

Fixpoint split_statements (extern_c : bool) (cur : list Token) (ts : list Token)
  : list (bool * list Token) :=
  match ts with
  | [] => match cur with [] => [] | _ => [(extern_c, rev cur)] end
  | t :: ts' =>
      if is_punct ";" t then (extern_c, rev cur) :: split_statements extern_c [] ts'
      else if is_punct "{" t then
        match cur with
        | [s; e] =>
            if is_str "C" s && is_ident "extern" e
            then split_statements true [] ts'
            else split_statements extern_c (t :: cur) ts'
        | _ => split_statements extern_c (t :: cur) ts'
        end
      else if is_punct "}" t then
        match cur with
        | [] => split_statements false [] ts'
        | _ => split_statements extern_c (t :: cur) ts'
        end
      else split_statements extern_c (t :: cur) ts'
  end.

(** The parameter list as written between the parentheses. *)
Inductive ParamList :=
| EmptyParens                       (* f()      *)
| VoidOnly                          (* f(void)  *)
| Params (ps : list (list Token)).  (* f(T1 a, T2 b, ...) *)

Record FunDecl := {
  fd_return : list string;   (* the type specifiers before the name *)
  fd_name : string;
  fd_params : ParamList;
  fd_extern_c : bool         (* declared under an extern "C" specification *)
}.

Inductive Decl :=
| DFun (f : FunDecl)
| DObject (specifiers : list string) (name : string)
| DOther (ts : list Token).

Fixpoint break_at (c : ascii) (ts : list Token) : list Token * option (list Token) :=
  match ts with
  | [] => ([], None)
  | t :: ts' =>
      if is_punct c t then ([], Some ts')
      else let '(before, after) := break_at c ts' in (t :: before, after)
  end.

Fixpoint split_commas (cur : list Token) (ts : list Token) : list (list Token) :=
  match ts with
  | [] => [rev cur]
  | t :: ts' =>
      if is_punct "," t then rev cur :: split_commas [] ts'
      else split_commas (t :: cur) ts'
  end.

Definition parse_params (inner : list Token) : ParamList :=
  match inner with
  | [] => EmptyParens
  | [TIdent "void"] => VoidOnly
  | _ => Params (split_commas [] inner)
  end.

(** [specifiers ++ [name]], all of them identifiers. *)
Definition split_name (ts : list Token) : option (list string * string) :=
  match rev ts with
  | TIdent name :: rev_specs =>
      if forallb (fun t => match t with TIdent _ => true | _ => false end) rev_specs
      then Some (map token_text (rev rev_specs), name)
      else None
  | _ => None
  end.

Definition strip_extern_c (extern_c : bool) (ts : list Token) : bool * list Token :=
  match ts with
  | TIdent "extern" :: TStr "C" :: ts' => (true, ts')
  | _ => (extern_c, ts)
  end.

Definition parse_statement (st : bool * list Token) : Decl :=
  let '(extern_c, ts) := strip_extern_c (fst st) (snd st) in
  match break_at "(" ts with
  | (before, None) =>
      match split_name before with
      | Some (specs, name) => DObject specs name
      | None => DOther ts
      end
  | (before, Some after) =>
      match split_name before, rev after with
      | Some (specs, name), TPunct ")" :: rev_inner =>
          DFun {| fd_return := specs; fd_name := name;
                  fd_params := parse_params (rev rev_inner);
                  fd_extern_c := extern_c |}
      | _, _ => DOther ts
      end
  end.

Record ParsedHeader := {
  directives : list Directive;
  declarations : list Decl
}.

Definition parse_header (src : list string) : ParsedHeader :=
  let ls := lines_of src in
  {| directives := directives_of ls;
     declarations := map parse_statement (split_statements false [] (code_of ls)) |}.

Definition functions (h : ParsedHeader) : list FunDecl :=
  flat_map (fun d => match d with DFun f => [f] | _ => [] end) (declarations h).

Definition objects (h : ParsedHeader) : list string :=
  flat_map (fun d => match d with DObject _ n => [n] | _ => [] end) (declarations h).

Definition macros_defined (h : ParsedHeader) : list string :=
  flat_map (fun d => match d with Define m _ => [m] | _ => [] end) (directives h).

Definition conditionals (h : ParsedHeader) : list Directive :=
  List.filter (fun d => match d with
                        | Ifndef _ | Ifdef _ | If _ | Else => true
                        | _ => false
                        end) (directives h).

(** ** What a translation unit makes of a function declaration

    The header is C: the module is built as C and its clients import it as
    C.  [LangC] is C as this module is built (C11/C17), where an empty
    parameter list declares a function without a prototype; [LangCxx] is
    C++, where an empty parameter list means no parameters and a name
    declared outside [extern "C"] has C++ language linkage. *)

Inductive Lang := LangC | LangCxx.

Inductive Linkage := CLinkage | CxxLinkage.

Definition language_linkage (l : Lang) (f : FunDecl) : Linkage :=
  match l with
  | LangC => CLinkage
  | LangCxx => if fd_extern_c f then CLinkage else CxxLinkage
  end.

(** Does the declaration give the types of the parameters? *)
Definition is_prototype (l : Lang) (f : FunDecl) : bool :=
  match l, fd_params f with
  | LangC, EmptyParens => false
  | _, _ => true
  end.

(** The number of parameters the declaration names. *)
Definition written_params (f : FunDecl) : nat :=
  match fd_params f with
  | EmptyParens | VoidOnly => 0
  | Params ps => length ps
  end.

(** The number of arguments the declared type fixes, if it fixes one. *)
Definition declared_arity (l : Lang) (f : FunDecl) : option nat :=
  if is_prototype l f then Some (written_params f) else None.

(** Is a call with [nargs] arguments accepted against this declaration? *)
Definition call_accepted (l : Lang) (f : FunDecl) (nargs : nat) : bool :=
  match declared_arity l f with
  | Some n => Nat.eqb n nargs
  | None => true
  end.

(** A function is exported unless it is declared [static]. *)
Definition exported (f : FunDecl) : bool :=
  negb (existsb (String.eqb "static") (fd_return f)).

(** The exact-width integer types of <stdint.h>, which the header includes. *)
Record IntType := { it_signed : bool; it_bits : N }.

Definition stdint_type (name : string) : option IntType :=
  match name with
  | "uint8_t" => Some {| it_signed := false; it_bits := 8 |}
  | "uint16_t" => Some {| it_signed := false; it_bits := 16 |}
  | "uint32_t" => Some {| it_signed := false; it_bits := 32 |}
  | "uint64_t" => Some {| it_signed := false; it_bits := 64 |}
  | "int8_t" => Some {| it_signed := true; it_bits := 8 |}
  | "int16_t" => Some {| it_signed := true; it_bits := 16 |}
  | "int32_t" => Some {| it_signed := true; it_bits := 32 |}
  | "int64_t" => Some {| it_signed := true; it_bits := 64 |}
  | _ => None
  end.

Definition return_type (f : FunDecl) : option IntType :=
  match fd_return f with
  | [t] => stdint_type t
  | _ => None
  end.

(** The include guard: [#ifndef G], [#define G] first, [#endif] last. *)
Definition include_guard (h : ParsedHeader) : option string :=
  match directives h with
  | Ifndef g :: Define g' [] :: rest =>
      match rev rest with
      | Endif :: _ => if String.eqb g g' then Some g else None
      | _ => None
      end
  | _ => None
  end.

(** ** The header, read *)

Definition the_declaration : FunDecl :=
  {| fd_return := ["uint64_t"];
     fd_name := "get_current_instruction_count";
     fd_params := EmptyParens;
     fd_extern_c := false |}.

End Header.

Module Counter.

Local Open Scope N_scope.

(** ** The data model *)

(** Modelled from the spec: the body of [get_current_instruction_count] is
    not in the header, which only declares it.  An InstructionCount is a
    64-bit unsigned integer: a number below [modulus]. *)
Definition modulus : N := 2 ^ 64.

(** Names of threads, locks and processes. *)
Definition Thread := nat.
Definition Lock := nat.
Definition Pid := nat.

(** Modelled from the spec: the closed set of platform backends of the
    Instruction Counter (the dispatch code is not in the header): a
    per-process counter of the operating system's process accounting, a
    hardware performance counter or kernel performance-event subsystem left
    running for the lifetime of the process, and the no-op backend. *)
Inductive Backend := ProcessAccounting | PerformanceCounter | NoOp.

(** Modelled from the spec: a supported platform is one whose backend is not
    the no-op backend. *)
Definition supported (b : Backend) : bool :=
  match b with NoOp => false | _ => true end.

(** Modelled from the spec: the sentinel that signals an unsupported
    platform is zero. *)
Definition sentinel : N := 0.

(** Modelled from the spec: the state of a process as far as the design
    speaks of it: the instructions the operating system or the hardware
    accounts as retired by the process since its launch (the true count; the
    64-bit counter holds it modulo [modulus]), and the other observable
    state: allocated memory, the locks that are held and by which thread,
    and the output written so far. *)
Record Process := {
  retired : N;
  heap : gmap N N;
  locks : gmap Lock Thread;
  output : list N
}.

(** Modelled from the spec: the process at its launch, with nothing retired
    yet ("since process launch"). *)
Definition launch : Process :=
  {| retired := 0; heap := ∅; locks := ∅; output := [] |}.

(** Modelled from the spec: "provided no counter overflow occurs (not
    expected within realistic process lifetimes for a 64-bit counter)": the
    count of the process is still one that 64 bits hold. *)
Definition no_overflow (p : Process) : Prop := retired p < modulus.

(** ** The operation *)

(** Modelled from the spec: the read of the platform's counting facility,
    which does not exist on the no-op backend.  A supported backend reads
    the 64-bit counter of the process. *)
Definition read_facility (b : Backend) (p : Process) : option N :=
  match b with
  | ProcessAccounting | PerformanceCounter => Some (retired p mod modulus)
  | NoOp => None
  end.

(** Modelled from the spec: [get_current_instruction_count], whose body is
    not in the header.  It takes no input; the backend of the build and the
    process it runs in are its surroundings.  It returns the current value
    of the counter, and the sentinel where there is no facility. *)
Definition get_current_instruction_count (b : Backend) (p : Process) : N :=
  match read_facility b p with
  | Some n => n
  | None => sentinel
  end.

(** ** What a process does *)

(** Modelled from the spec: the events in the life of one process.  Its
    threads retire instructions (the instructions of a call to the counter
    are retired like any others, by [Retire] events around the call),
    allocate and free memory, take and release locks, write output, and call
    [get_current_instruction_count]. *)
Inductive Event :=
| Retire (t : Thread) (k : N)
| Allocate (t : Thread) (addr size : N)
| Free (t : Thread) (addr : N)
| Acquire (t : Thread) (l : Lock)
| Release (t : Thread) (l : Lock)
| Write (t : Thread) (bytes : list N)
| Call (t : Thread).

Definition actor (e : Event) : Thread :=
  match e with
  | Retire t _ | Allocate t _ _ | Free t _ | Acquire t _ | Release t _
  | Write t _ | Call t => t
  end.

Definition is_call (e : Event) : bool :=
  match e with Call _ => true | _ => false end.

Definition is_retire (e : Event) : bool :=
  match e with Retire _ _ => true | _ => false end.

Definition set_retired (n : N) (p : Process) : Process :=
  {| retired := n; heap := heap p; locks := locks p; output := output p |}.
Definition set_heap (h : gmap N N) (p : Process) : Process :=
  {| retired := retired p; heap := h; locks := locks p; output := output p |}.
Definition set_locks (ls : gmap Lock Thread) (p : Process) : Process :=
  {| retired := retired p; heap := heap p; locks := ls; output := output p |}.
Definition set_output (o : list N) (p : Process) : Process :=
  {| retired := retired p; heap := heap p; locks := locks p; output := o |}.

(** Modelled from the spec: one event, and the sample it returns when it is
    a call.  The counter is maintained by the operating system or the
    hardware and is read, not changed, by the call. *)
Definition exec (b : Backend) (p : Process) (e : Event)
  : Process * option (Thread * N) :=
  match e with
  | Retire _ k => (set_retired (retired p + k) p, None)
  | Allocate _ a n => (set_heap (<[a := n]> (heap p)) p, None)
  | Free _ a => (set_heap (delete a (heap p)) p, None)
  | Acquire t l =>
      match locks p !! l with
      | None => (set_locks (<[l := t]> (locks p)) p, None)
      | Some _ => (p, None)
      end
  | Release t l =>
      match locks p !! l with
      | Some t' => if Nat.eqb t t' then (set_locks (delete l (locks p)) p, None)
                   else (p, None)
      | None => (p, None)
      end
  | Write _ bs => (set_output (output p ++ bs) p, None)
  | Call t => (p, Some (t, get_current_instruction_count b p))
  end.

(** Modelled from the spec: the harness samples, runs work, samples again.
    A sequence of events of one process, with the samples of its calls in
    the order of the calls, each with the thread that called. *)
Fixpoint run (b : Backend) (p : Process) (es : list Event)
  : Process * list (Thread * N) :=
  match es with
  | [] => (p, [])
  | e :: es' =>
      let '(p1, r) := exec b p e in
      let '(p2, vs) := run b p1 es' in
      (p2, option_list r ++ vs)
  end.

(** The instructions a sequence of events retires. *)
Fixpoint work (es : list Event) : N :=
  match es with
  | [] => 0
  | Retire _ k :: es' => k + work es'
  | _ :: es' => work es'
  end.

(** Modelled from the spec: a CPU-bound loop of [iterations] iterations on
    thread [t], each of which retires [cost] instructions. *)
Definition cpu_loop (t : Thread) (iterations : nat) (cost : N) : list Event :=
  repeat (Retire t cost) iterations.

(** ** Several processes *)

(** Modelled from the spec: the processes of the machine, each with its own
    accounting.  An event of a process that is not running has no effect;
    an event of a running process acts on that process alone. *)
Definition sys_exec (b : Backend) (σ : gmap Pid Process) (pe : Pid * Event)
  : gmap Pid Process * option (Pid * (Thread * N)) :=
  match σ !! pe.1 with
  | Some p =>
      let '(p', r) := exec b p pe.2 in
      (<[pe.1 := p']> σ, (fun s => (pe.1, s)) <$> r)
  | None => (σ, None)
  end.

(** Modelled from the spec: a run of the machine, with the samples of all
    processes in order. *)
Fixpoint sys_run (b : Backend) (σ : gmap Pid Process) (τ : list (Pid * Event))
  : gmap Pid Process * list (Pid * (Thread * N)) :=
  match τ with
  | [] => (σ, [])
  | pe :: τ' =>
      let '(σ1, r) := sys_exec b σ pe in
      let '(σ2, vs) := sys_run b σ1 τ' in
      (σ2, option_list r ++ vs)
  end.


Fixpoint samples_of (pid : Pid) (vs : list (Pid * (Thread * N))) : list (Thread * N) :=
  match vs with
  | [] => []
  | (q, s) :: vs' => if Nat.eqb pid q then s :: samples_of pid vs' else samples_of pid vs'
  end.

(** ** Threads that call at the same time

    Modelled from the spec: a call is not one instant.  A thread enters the
    function, reads the counter, and returns what it read; the steps of
    other threads may fall in between. *)

Inductive CallState :=
| Entered
| Sampled (v : N).

(** Modelled from the spec: a process together with the threads that are
    inside a call and how far each of them has come. *)
Record Config := {
  proc : Process;
  calls : gmap Thread CallState
}.


(** Modelled from the spec: the steps of the threads of a process: an event
    other than a call, or one of the three steps of a call. *)
Inductive Label :=
| LEnv (e : Event)                (* anything but the call *)
| LInvoke (t : Thread)
| LSample (t : Thread)
| LReturn (t : Thread) (v : N).



(** Modelled from the spec: one step of one thread; [None] when the step
    cannot be taken.  The steps of a call ask for nothing but the thread's
    own place in the call: no lock, no other thread.  A thread inside a call
    retires instructions and does nothing else besides the call's steps. *)
Definition do_step (b : Backend) (c : Config) (l : Label) : option Config :=
  match l with
  | LEnv e =>
      if is_call e then None
      else match calls c !! actor e with
           | Some _ =>
               if is_retire e
               then Some {| proc := (exec b (proc c) e).1; calls := calls c |}
               else None
           | None => Some {| proc := (exec b (proc c) e).1; calls := calls c |}
           end
  | LInvoke t =>
      match calls c !! t with
      | None => Some {| proc := proc c; calls := <[t := Entered]> (calls c) |}
      | Some _ => None
      end
  | LSample t =>
      match calls c !! t with
      | Some Entered =>
          Some {| proc := proc c;
                  calls := <[t := Sampled (get_current_instruction_count b (proc c))]>
                             (calls c) |}
      | _ => None
      end
  | LReturn t v =>
      match calls c !! t with
      | Some (Sampled v') =>
          if N.eqb v v' then Some {| proc := proc c; calls := delete t (calls c) |}
          else None
      | _ => None
      end
  end.

(** An interleaving: the steps of all threads in the order they happen. *)
Fixpoint do_steps (b : Backend) (c : Config) (ls : list Label) : option Config :=
  match ls with
  | [] => Some c
  | l :: ls' =>
      match do_step b c l with
      | Some c' => do_steps b c' ls'
      | None => None
      end
  end.


(** ** Concrete runs, used to try the statements below *)





(** Two calls by two threads around some work. *)
Definition example_calls : list Event :=
  [Call 0%nat; Retire 1%nat 5; Call 1%nat].

End Counter.

(** * Including the header

    The directives of the header ([#ifndef], [#define], [#include],
    [#endif]) as the preprocessor runs them.  The model covers conditional
    inclusion on whether a macro is defined; where a translation unit needs
    more (the expression of an [#if], the expansion of a macro inside a
    declaration, a second definition of a macro) the result is [None]: the
    model says nothing there rather than something inexact. *)

Module Preprocessor.
Import Header.

Local Open Scope string_scope.

(** One open conditional: was the text around it being kept, did its
    condition hold, and has its [#else] been passed. *)
Record Frame := {
  parent_active : bool;
  condition : bool;
  in_else : bool
}.

Definition frame_active (f : Frame) : bool :=
  parent_active f && xorb (condition f) (in_else f).

(** The text is kept when there is no open conditional or the innermost one
    keeps it. *)
Definition active (stack : list Frame) : bool :=
  match stack with
  | [] => true
  | f :: _ => frame_active f
  end.

(** What preprocessing hands on: the files it was told to include, and the
    code lines that were kept. *)
Inductive Item :=
| PInclude (file : string)
| PCode (ts : list Token).

Record PState := {
  env : gset string;        (* the macros that are defined *)
  stack : list Frame;       (* the open conditionals, innermost first *)
  out : list Item
}.

Definition uses_macro (defined : gset string) (ts : list Token) : bool :=
  existsb (fun t => match t with
                    | TIdent m => bool_decide (m ∈ defined)
                    | _ => false
                    end) ts.

Section WithIncludes.

(** The text of an included file is not at hand (<stdint.h> belongs to the
    platform): what including a file does to the set of defined macros is a
    parameter. *)
Variable include_effect : string -> gset string -> gset string.

Definition step (st : PState) (l : Line) : option PState :=
  match l with
  | LCode [] => Some st
  | LCode ts =>
      if active (stack st)
      then if uses_macro (env st) ts then None
           else Some {| env := env st; stack := stack st;
                        out := out st ++ [PCode ts] |}
      else Some st
  | LDirective (Ifndef m) =>
      Some {| env := env st;
              stack := {| parent_active := active (stack st);
                          condition := bool_decide (m ∉ env st);
                          in_else := false |} :: stack st;
              out := out st |}
  | LDirective (Ifdef m) =>
      Some {| env := env st;
              stack := {| parent_active := active (stack st);
                          condition := bool_decide (m ∈ env st);
                          in_else := false |} :: stack st;
              out := out st |}
  | LDirective Else =>
      match stack st with
      | f :: rest =>
          if in_else f then None
          else Some {| env := env st;
                       stack := {| parent_active := parent_active f;
                                   condition := condition f;
                                   in_else := true |} :: rest;
                       out := out st |}
      | [] => None
      end
  | LDirective Endif =>
      match stack st with
      | _ :: rest => Some {| env := env st; stack := rest; out := out st |}
      | [] => None
      end
  | LDirective (Define m _) =>
      if active (stack st)
      then if bool_decide (m ∈ env st) then None
           else Some {| env := {[ m ]} ∪ env st; stack := stack st; out := out st |}
      else Some st
  | LDirective (Include f) =>
      if active (stack st)
      then Some {| env := include_effect f (env st); stack := stack st;
                   out := out st ++ [PInclude f] |}
      else Some st
  | LDirective (If _) => None
  | LDirective (OtherDirective _ _) =>
      if active (stack st) then None else Some st
  end.

Fixpoint steps (st : PState) (ls : list Line) : option PState :=
  match ls with
  | [] => Some st
  | l :: ls' =>
      match step st l with
      | Some st' => steps st' ls'
      | None => None
      end
  end.

(** A translation unit, given the macros defined before it: the macros
    defined after it and what it hands on.  Every conditional must be
    closed. *)
Definition preprocess (defined : gset string) (ls : list Line)
  : option (gset string * list Item) :=
  match steps {| env := defined; stack := []; out := [] |} ls with
  | Some st =>
      match stack st with
      | [] => Some (env st, out st)
      | _ => None
      end
  | None => None
  end.

(** The macros defined once the header has been read for the first time:
    its guard, and whatever <stdint.h> makes of the rest. *)
Definition after_header (defined : gset string) : gset string :=
  include_effect "stdint.h" ({[ "InstructionCount_h" ]} ∪ defined).

End WithIncludes.

(** What the header hands on when it is read for the first time. *)
Definition the_items : list Item :=
  [PInclude "stdint.h";
   PCode [TIdent "uint64_t"; TIdent "get_current_instruction_count";
          TPunct "("; TPunct ")"; TPunct ";"]].

(** A translation unit that includes InstructionCount.h [n] times. *)
Definition included (n : nat) : list Line :=
  concat (replicate n (lines_of InstructionCount_h)).

(** The declarations in what preprocessing hands on. *)
Definition declared (items : list Item) : list Decl :=
  map parse_statement
    (split_statements false []
       (flat_map (fun i => match i with PCode ts => ts | PInclude _ => [] end) items)).

Definition includes (items : list Item) : list string :=
  flat_map (fun i => match i with PInclude f => [f] | PCode _ => [] end) items.

(** A platform whose <stdint.h> defines a macro of its own. *)
Definition example_include_effect (file : string) (defined : gset string)
  : gset string :=
  if String.eqb file "stdint.h" then {[ "UINT64_MAX" ]} ∪ defined else defined.

(** The header read inside the skipped branch of a client's conditional,
    after the client's own declaration. *)
Definition example_nested : PState :=
  {| env := {[ "NDEBUG" ]};
     stack := [{| parent_active := true; condition := false; in_else := false |}];
     out := [PCode [TIdent "int"; TIdent "main"; TPunct "("; TIdent "void";
                    TPunct ")"; TPunct ";"]] |}.

(** The header read at the start of a translation unit, before and after. *)
Definition example_fresh : PState :=
  {| env := ∅; stack := []; out := [] |}.

Definition example_read : PState :=
  {| env := example_include_effect "stdint.h" ({[ "InstructionCount_h" ]} ∪ ∅);
     stack := [];
     out := the_items |}.

End Preprocessor.

(** * The header: what it declares *)

Module HeaderFacts.
Import Header.

Local Open Scope string_scope.

Lemma parse_InstructionCount_h :
  parse_header InstructionCount_h =
  {| directives := [Ifndef "InstructionCount_h"; Define "InstructionCount_h" [];
                    Include "stdint.h"; Endif];
     declarations := [DFun the_declaration] |}.
Proof. vm_compute. reflexivity. Qed.

(** What the two spellings of an empty parameter list mean, for any
    declaration. *)

Lemma empty_parens_C f n :
  fd_params f = EmptyParens -> call_accepted LangC f n = true.
Proof. unfold call_accepted, declared_arity, is_prototype. by intros ->. Qed.

Lemma empty_parens_Cxx f n :
  fd_params f = EmptyParens -> call_accepted LangCxx f n = true <-> n = 0.
Proof.
  unfold call_accepted, declared_arity, is_prototype, written_params.
  intros ->. simpl. destruct n; simpl; split; intros; congruence.
Qed.

Lemma void_only_any_language l f n :
  fd_params f = VoidOnly -> call_accepted l f n = true <-> n = 0.
Proof.
  unfold call_accepted, declared_arity, is_prototype, written_params.
  intros ->. destruct l, n; simpl; split; intros; congruence.
Qed.

(** The reader tells the spellings apart: the same function declared with
    [(void)], under [extern "C"], and next to an object. *)

Example reads_void :
  functions (parse_header ["uint64_t get_current_instruction_count(void);"])
  = [{| fd_return := ["uint64_t"]; fd_name := "get_current_instruction_count";
        fd_params := VoidOnly; fd_extern_c := false |}].
Proof. vm_compute. reflexivity. Qed.

Example reads_extern_c :
  functions
    (parse_header
       ["#ifdef __cplusplus";
        String.append "extern " (String dquote (String.append "C" (String dquote " {")));
        "#endif";
        "uint64_t get_current_instruction_count();";
        "#ifdef __cplusplus";
        "}";
        "#endif"])
  = [{| fd_return := ["uint64_t"]; fd_name := "get_current_instruction_count";
        fd_params := EmptyParens; fd_extern_c := true |}].
Proof. vm_compute. reflexivity. Qed.

Example reads_object_and_parameters :
  declarations
    (parse_header
       ["extern uint64_t last_count; /* a counter";
        "that is kept */ static int reset_count(int how, char *why);"])
  = [DObject ["extern"; "uint64_t"] "last_count";
     DFun {| fd_return := ["static"; "int"]; fd_name := "reset_count";
             fd_params := Params [[TIdent "int"; TIdent "how"];
                                  [TIdent "char"; TPunct "*"; TIdent "why"]];
             fd_extern_c := false |}].
Proof. vm_compute. reflexivity. Qed.

(** C4: the boundary of the module is exactly one exported function,
    [get_current_instruction_count]: the header declares nothing else, the
    declaration has C linkage in the C translation units the module is built
    and imported as, it names no parameter, and it returns the unsigned
    64-bit type of <stdint.h>.  There is no flag and no configuration (the
    only macro and the only conditional are the include guard) and no
    persisted state (no object is declared). *)
Theorem boundary_is_one_function :
  exists f,
    declarations (parse_header InstructionCount_h) = [DFun f]
    /\ List.filter exported (functions (parse_header InstructionCount_h)) = [f]
    /\ fd_name f = "get_current_instruction_count"
    /\ language_linkage LangC f = CLinkage
    /\ fd_params f = EmptyParens /\ written_params f = 0
    /\ return_type f = Some {| it_signed := false; it_bits := 64 |}
    /\ objects (parse_header InstructionCount_h) = []
    /\ include_guard (parse_header InstructionCount_h) = Some "InstructionCount_h"
    /\ macros_defined (parse_header InstructionCount_h) = ["InstructionCount_h"]
    /\ conditionals (parse_header InstructionCount_h) = [Ifndef "InstructionCount_h"].
Proof.
  rewrite parse_InstructionCount_h.
  exists the_declaration. split_and!; vm_compute; reflexivity.
Qed.

(** C10: the declaration is written with an empty parameter list, not
    [(void)], and under no [extern "C"].  Read as C it is therefore not a
    prototype and a call with any number of arguments is accepted against
    it; read as C++ only the call without arguments is. *)
Theorem empty_parens_not_a_prototype_in_C :
  exists f,
    functions (parse_header InstructionCount_h) = [f]
    /\ fd_name f = "get_current_instruction_count"
    /\ fd_params f = EmptyParens
    /\ fd_params f <> VoidOnly
    /\ fd_extern_c f = false
    /\ is_prototype LangC f = false
    /\ declared_arity LangC f = None
    /\ (forall nargs, call_accepted LangC f nargs = true)
    /\ declared_arity LangCxx f = Some 0
    /\ (forall nargs, call_accepted LangCxx f nargs = true <-> nargs = 0).
Proof.
  exists the_declaration. rewrite parse_InstructionCount_h.
  split_and!; try reflexivity; try discriminate.
  intros nargs. by apply empty_parens_Cxx.
Qed.

End HeaderFacts.

(** * The counter: what a caller may rely on *)

Module CounterFacts.
Import Counter.

Local Open Scope N_scope.

(** ** The value *)

Lemma modulus_pos : 0 < modulus.
Proof. reflexivity. Qed.

Lemma read_facility_supported b p :
  supported b = true -> read_facility b p = Some (retired p mod modulus).
Proof. by destruct b. Qed.

Lemma read_facility_unsupported b p :
  supported b = false -> read_facility b p = None.
Proof. by destruct b. Qed.

Lemma get_supported b p :
  supported b = true ->
  get_current_instruction_count b p = retired p mod modulus.
Proof.
  intros Hb. unfold get_current_instruction_count.
  by rewrite read_facility_supported.
Qed.

Lemma get_unsupported b p :
  supported b = false -> get_current_instruction_count b p = sentinel.
Proof.
  intros Hb. unfold get_current_instruction_count.
  by rewrite read_facility_unsupported.
Qed.

(** Without overflow the sample of a supported backend is the count itself. *)
Lemma get_exact b p :
  supported b = true -> retired p < modulus ->
  get_current_instruction_count b p = retired p.
Proof. intros Hb Hp. rewrite get_supported by done. by apply N.mod_small. Qed.

Lemma get_mono b p p' :
  retired p <= retired p' -> retired p' < modulus ->
  get_current_instruction_count b p <= get_current_instruction_count b p'.
Proof.
  intros Hle Hlt. destruct (supported b) eqn:Hb.
  - rewrite !get_exact by (done || lia). done.
  - rewrite !get_unsupported by done. done.
Qed.

(** ** One event *)

Lemma exec_call b p t :
  exec b p (Call t) = (p, Some (t, get_current_instruction_count b p)).
Proof. reflexivity. Qed.

Lemma exec_not_call b p e : is_call e = false -> (exec b p e).2 = None.
Proof.
  destruct e; simpl; try done; intros _.
  - by destruct (locks p !! l).
  - destruct (locks p !! l); [|done]. by destruct (Nat.eqb _ _).
Qed.

Lemma exec_retired b p e :
  retired (exec b p e).1 =
  match e with Retire _ k => retired p + k | _ => retired p end.
Proof.
  destruct e; simpl; try done.
  - by destruct (locks p !! l).
  - destruct (locks p !! l); [|done]. by destruct (Nat.eqb _ _).
Qed.

Lemma exec_retired_mono b p e : retired p <= retired (exec b p e).1.
Proof. rewrite exec_retired. destruct e; lia. Qed.

(** The backend matters to the sample only, never to the next state. *)
Lemma exec_state_any_backend b b' p e : (exec b p e).1 = (exec b' p e).1.
Proof. by destruct e. Qed.

(** ** Sequences of events *)

Lemma run_cons b p e es :
  run b p (e :: es) =
  ((run b (exec b p e).1 es).1, option_list (exec b p e).2 ++ (run b (exec b p e).1 es).2).
Proof.
  simpl. destruct (exec b p e) as [p1 r]. simpl.
  by destruct (run b p1 es).
Qed.

Lemma run_app b p es1 es2 :
  run b p (es1 ++ es2) =
  ((run b (run b p es1).1 es2).1, (run b p es1).2 ++ (run b (run b p es1).1 es2).2).
Proof.
  revert p. induction es1 as [|e es1 IH]; intros p.
  - simpl. by destruct (run b p es2).
  - rewrite <- app_comm_cons, !run_cons, IH. simpl. by rewrite app_assoc.
Qed.

Lemma run_retired b p es : retired (run b p es).1 = retired p + work es.
Proof.
  revert p. induction es as [|e es IH]; intros p.
  - simpl. lia.
  - rewrite run_cons. simpl fst. rewrite IH, exec_retired.
    destruct e; simpl; lia.
Qed.

Lemma run_retired_mono b p es : retired p <= retired (run b p es).1.
Proof. rewrite run_retired. lia. Qed.

Lemma work_app es1 es2 : work (es1 ++ es2) = work es1 + work es2.
Proof.
  induction es1 as [|e es1 IH]; [done|].
  destruct e; simpl; rewrite ?IH; lia.
Qed.

Lemma work_cpu_loop t n c : work (cpu_loop t n c) = N.of_nat n * c.
Proof.
  unfold cpu_loop. induction n as [|n IH].
  - reflexivity.
  - change (repeat (Retire t c) (S n)) with (Retire t c :: repeat (Retire t c) n).
    simpl work. rewrite IH. lia.
Qed.

Lemma run_no_calls b p es :
  forallb (fun e => negb (is_call e)) es = true -> (run b p es).2 = [].
Proof.
  revert p. induction es as [|e es IH]; intros p Hes; [done|].
  simpl in Hes. apply andb_prop in Hes as [He Hes].
  rewrite run_cons. simpl snd. rewrite IH by done.
  rewrite exec_not_call; [done|]. by destruct (is_call e).
Qed.

Lemma cpu_loop_no_calls t n c :
  forallb (fun e => negb (is_call e)) (cpu_loop t n c) = true.
Proof. unfold cpu_loop. induction n; [done|]. simpl. done. Qed.

(** Every sample of a run lies between the counter at its start and the
    counter at its end. *)
Lemma run_samples_between b p es :
  retired (run b p es).1 < modulus ->
  Forall (fun s => get_current_instruction_count b p <= s.2
                   /\ s.2 <= get_current_instruction_count b (run b p es).1)
         (run b p es).2.
Proof.
  revert p. induction es as [|e es IH]; intros p Hlt; [constructor|].
  rewrite run_cons in *. simpl fst in *. simpl snd.
  pose proof (exec_retired_mono b p e) as Hm.
  pose proof (run_retired_mono b (exec b p e).1 es) as Hm'.
  apply Forall_app. split.
  - destruct e; simpl; try by constructor.
    + by destruct (locks p !! l); constructor.
    + destruct (locks p !! l); [|by constructor]. by destruct (Nat.eqb _ _); constructor.
    + constructor; [|constructor]. simpl. split; [done|].
      apply get_mono; [|done]. simpl in Hm'. done.
  - eapply Forall_impl; [apply IH; done|].
    intros s [H1 H2]. split; [|done].
    etrans; [|exact H1]. apply get_mono; [done|lia].
Qed.

Lemma run_samples_sorted b p es :
  retired (run b p es).1 < modulus ->
  StronglySorted (fun s s' : Thread * N => s.2 <= s'.2) (run b p es).2.
Proof.
  revert p. induction es as [|e es IH]; intros p Hlt; [constructor|].
  rewrite run_cons in *. simpl fst in *. simpl snd.
  destruct (is_call e) eqn:He.
  - destruct e; try discriminate. simpl. constructor; [by apply IH|].
    eapply Forall_impl; [apply (run_samples_between b p es); done|].
    by intros s [H1 _].
  - rewrite exec_not_call by done. simpl. by apply IH.
Qed.

Lemma StronglySorted_lookup {A} (R : A -> A -> Prop) (l : list A) i j x y :
  StronglySorted R l -> (i < j)%nat ->
  l !! i = Some x -> l !! j = Some y -> R x y.
Proof.
  intros Hs. revert i j. induction Hs as [|a l Hs IH Hall]; intros i j Hij Hi Hj.
  - done.
  - destruct j as [|j]; [lia|]. destruct i as [|i].
    + simpl in *. injection Hi as <-.
      rewrite Forall_forall in Hall. apply Hall.
      eapply list_elem_of_lookup_2. exact Hj.
    + simpl in *. eapply IH; [|done..]. lia.
Qed.

(** Two calls around events that are not calls: the difference of the two
    samples is the work in between. *)
Lemma bracket_delta b p t1 t2 es :
  supported b = true ->
  forallb (fun e => negb (is_call e)) es = true ->
  retired p + work es < modulus ->
  (run b p (Call t1 :: es ++ [Call t2])).2 =
  [(t1, retired p); (t2, retired p + work es)].
Proof.
  intros Hb Hes Hlt.
  rewrite run_cons, exec_call. cbn [fst snd option_list].
  rewrite run_app. cbn [fst snd]. rewrite run_no_calls by done.
  change (run b (run b p es).1 [Call t2]).2
    with [(t2, get_current_instruction_count b (run b p es).1)].
  rewrite !get_exact; try done.
  - by rewrite run_retired.
  - by rewrite run_retired.
  - lia.
Qed.

(** Past 2^64 the 64-bit counter wraps, which is why the ordering of the
    samples is stated for counts below 2^64. *)
Example overflow_wraps :
  (run PerformanceCounter (set_retired (modulus - 2) launch)
     [Call 0%nat; Retire 0%nat 5; Call 0%nat]).2
  = [(0%nat, modulus - 2); (0%nat, 3)].
Proof. reflexivity. Qed.

(** ** The claims about one process *)

(** C1: of two calls made one after the other in one process, by whatever
    threads, the later one returns a value at least as large as the earlier
    one, and the count of the process never goes down while it runs,
    provided the count stays below 2^64. *)
Theorem samples_never_decrease b p es i j t1 v1 t2 v2 :
  no_overflow (run b p es).1 ->
  (i < j)%nat ->
  (run b p es).2 !! i = Some (t1, v1) ->
  (run b p es).2 !! j = Some (t2, v2) ->
  v1 <= v2 /\ retired p <= retired (run b p es).1.
Proof.
  intros Hlt Hij Hi Hj. split; [|apply run_retired_mono].
  apply (StronglySorted_lookup _ _ i j (t1, v1) (t2, v2)
           (run_samples_sorted b p es Hlt) Hij Hi Hj).
Qed.

Lemma samples_never_decrease_witness :
  no_overflow (run ProcessAccounting launch example_calls).1
  /\ (run ProcessAccounting launch example_calls).2 !! 0%nat = Some (0%nat, 0)
  /\ (run ProcessAccounting launch example_calls).2 !! 1%nat = Some (1%nat, 5)
  /\ 0 <= 5
  /\ retired launch <= retired (run ProcessAccounting launch example_calls).1.
Proof.
  assert (no_overflow (run ProcessAccounting launch example_calls).1) as H
    by reflexivity.
  split; [exact H|]. split; [reflexivity|]. split; [reflexivity|].
  apply (samples_never_decrease ProcessAccounting launch example_calls
           0 1 0%nat 0 1%nat 5 H).
  - lia.
  - reflexivity.
  - reflexivity.
Defined.

(** C7: on a supported backend, two calls around a loop of at least one
    iteration, each iteration retiring at least one instruction, differ by
    the work of the loop, which is more than zero (the count staying below
    2^64). *)
Theorem work_gives_positive_delta b p t n c :
  supported b = true ->
  (0 < n)%nat ->
  0 < c ->
  no_overflow (run b p (Call t :: cpu_loop t n c ++ [Call t])).1 ->
  exists v1 v2,
    (run b p (Call t :: cpu_loop t n c ++ [Call t])).2 = [(t, v1); (t, v2)]
    /\ v1 < v2
    /\ v2 - v1 = N.of_nat n * c.
Proof.
  intros Hb Hn Hc Hlt.
  unfold no_overflow in Hlt. rewrite run_retired in Hlt.
  change (Call t :: cpu_loop t n c ++ [Call t])
    with ([Call t] ++ cpu_loop t n c ++ [Call t]) in Hlt.
  rewrite !work_app, work_cpu_loop in Hlt. simpl in Hlt.
  exists (retired p), (retired p + N.of_nat n * c).
  split_and!; [|nia|lia].
  rewrite bracket_delta.
  - by rewrite work_cpu_loop.
  - done.
  - apply cpu_loop_no_calls.
  - rewrite work_cpu_loop. lia.
Qed.

Lemma work_gives_positive_delta_witness :
  supported PerformanceCounter = true
  /\ no_overflow (run PerformanceCounter launch
                    (Call 0%nat :: cpu_loop 0%nat 1000 3 ++ [Call 0%nat])).1
  /\ exists v1 v2,
       (run PerformanceCounter launch
          (Call 0%nat :: cpu_loop 0%nat 1000 3 ++ [Call 0%nat])).2
       = [(0%nat, v1); (0%nat, v2)]
       /\ v1 < v2
       /\ v2 - v1 = N.of_nat 1000 * 3.
Proof.
  split; [reflexivity|]. split; [reflexivity|].
  apply (work_gives_positive_delta PerformanceCounter launch 0%nat 1000 3).
  - reflexivity.
  - lia.
  - reflexivity.
  - reflexivity.
Defined.

(** ** Several processes *)

Lemma sys_run_cons b σ pe τ :
  sys_run b σ (pe :: τ) =
  ((sys_run b (sys_exec b σ pe).1 τ).1,
   option_list (sys_exec b σ pe).2 ++ (sys_run b (sys_exec b σ pe).1 τ).2).
Proof.
  simpl. destruct (sys_exec b σ pe) as [σ1 r]. simpl.
  by destruct (sys_run b σ1 τ).
Qed.

Lemma samples_of_app pid vs1 vs2 :
  samples_of pid (vs1 ++ vs2) = samples_of pid vs1 ++ samples_of pid vs2.
Proof.
  induction vs1 as [|[q s] vs1 IH]; [done|].
  simpl. destruct (Nat.eqb pid q); simpl; by rewrite IH.
Qed.

(** An event of another process leaves this process as it is and gives it no
    sample. *)
Lemma sys_exec_other b σ pid q e :
  pid <> q ->
  (sys_exec b σ (q, e)).1 !! pid = σ !! pid
  /\ samples_of pid (option_list (sys_exec b σ (q, e)).2) = [].
Proof.
  intros Hne. unfold sys_exec. simpl.
  destruct (σ !! q) as [pq|] eqn:Hq; [|done].
  destruct (exec b pq e) as [pq' r]. simpl. split.
  - by rewrite lookup_insert_ne.
  - destruct r as [s|]; [|done]. simpl.
    destruct (Nat.eqb pid q) eqn:Heq; [|done].
    apply Nat.eqb_eq in Heq. done.
Qed.


Lemma sys_exec_not_running b σ pid e :
  σ !! pid = None -> sys_exec b σ (pid, e) = (σ, None).
Proof. intros Hp. unfold sys_exec. simpl. by rewrite Hp. Qed.


Lemma sys_run_not_running b σ τ pid :
  σ !! pid = None -> samples_of pid (sys_run b σ τ).2 = [].
Proof.
  revert σ. induction τ as [|[q e] τ IH]; intros σ Hp; [done|].
  rewrite sys_run_cons. cbn [fst snd]. rewrite samples_of_app.
  destruct (decide (pid = q)) as [<-|Hne].
  - rewrite sys_exec_not_running by done. simpl. by apply IH.
  - destruct (sys_exec_other b σ pid q e Hne) as [Hst Hsm].
    rewrite Hsm. simpl. apply IH. by rewrite Hst.
Qed.



(** ** Threads that call at the same time *)













(** A call that no other step interrupts is the call of [exec]. *)
Lemma call_alone b c t :
  calls c !! t = None ->
  do_steps b c [LInvoke t; LSample t;
                LReturn t (get_current_instruction_count b (proc c))] = Some c
  /\ exec b (proc c) (Call t) = (proc c, Some (t, get_current_instruction_count b (proc c))).
Proof.
  intros Ht. split; [|done]. simpl. rewrite Ht. simpl.
  rewrite lookup_insert_eq. simpl. rewrite lookup_insert_eq, N.eqb_refl.
  f_equal. destruct c as [p cs]. simpl in *. f_equal.
  rewrite insert_insert_eq. by apply delete_insert_id.
Qed.




End CounterFacts.

(** * Including the header: the include guard *)

Module PreprocessorFacts.
Import Header Preprocessor.

Local Open Scope string_scope.

Lemma header_lines :
  lines_of InstructionCount_h =
  (replicate 12 (LCode [])
  ++ [LDirective (Ifndef "InstructionCount_h");
      LDirective (Define "InstructionCount_h" []);
      LCode [];
      LDirective (Include "stdint.h");
      LCode []; LCode [];
      LCode [TIdent "uint64_t"; TIdent "get_current_instruction_count";
             TPunct "("; TPunct ")"; TPunct ";"];
      LCode [];
      LDirective Endif])%list.
Proof. vm_compute. reflexivity. Qed.

Section WithIncludes.

Variable include_effect : string -> gset string -> gset string.

Lemma steps_app st ls1 ls2 :
  steps include_effect st (ls1 ++ ls2)%list =
  match steps include_effect st ls1 with
  | Some st' => steps include_effect st' ls2
  | None => None
  end.
Proof.
  revert st. induction ls1 as [|l ls1 IH]; intros st; [done|].
  simpl. destruct (step include_effect st l); [apply IH|done].
Qed.

Lemma steps_blank st n : steps include_effect st (replicate n (LCode [])) = Some st.
Proof. induction n; [done|]. simpl. done. Qed.

Lemma uses_macro_declaration (defined : gset string) :
  "uint64_t" ∉ defined ->
  "get_current_instruction_count" ∉ defined ->
  uses_macro defined
    [TIdent "uint64_t"; TIdent "get_current_instruction_count";
     TPunct "("; TPunct ")"; TPunct ";"] = false.
Proof.
  intros H1 H2. simpl.
  by rewrite !bool_decide_eq_false_2.
Qed.

(** Read where the text is kept and the guard is not yet defined, the header
    defines the guard, includes <stdint.h> and hands on its declaration. *)
Lemma header_first st :
  active (stack st) = true ->
  "InstructionCount_h" ∉ env st ->
  "uint64_t" ∉ after_header include_effect (env st) ->
  "get_current_instruction_count" ∉ after_header include_effect (env st) ->
  steps include_effect st (lines_of InstructionCount_h) =
  Some {| env := after_header include_effect (env st);
          stack := stack st;
          out := (out st ++ the_items)%list |}.
Proof.
  intros Hact Hg H1 H2. rewrite header_lines, steps_app, steps_blank.
  cbn [steps step stack env out active frame_active parent_active condition in_else].
  unfold after_header in *. rewrite Hact, (bool_decide_eq_true_2 _ Hg). cbn [andb xorb].
  rewrite (bool_decide_eq_false_2 _ Hg).
  cbn [steps step stack env out active frame_active parent_active condition in_else
       andb xorb].
  rewrite (uses_macro_declaration _ H1 H2).
  by rewrite <- app_assoc.
Qed.

(** Read where the text is skipped, or where the guard is defined, the
    header changes nothing. *)
Lemma header_again st :
  active (stack st) = false \/ "InstructionCount_h" ∈ env st ->
  steps include_effect st (lines_of InstructionCount_h) = Some st.
Proof.
  intros Hskip. rewrite header_lines, steps_app, steps_blank.
  assert (active (stack st) && bool_decide ("InstructionCount_h" ∉ env st) = false)
    as Hoff.
  { destruct Hskip as [->|Hg]; [done|].
    rewrite bool_decide_eq_false_2; [|by intros []].
    by destruct (active (stack st)). }
  cbn [steps step stack env out active frame_active parent_active condition in_else].
  destruct (active (stack st)), (bool_decide ("InstructionCount_h" ∉ env st));
    try discriminate; by destruct st.
Qed.

Lemma included_S n :
  included (S n) = (lines_of InstructionCount_h ++ included n)%list.
Proof. reflexivity. Qed.

Lemma included_again st n :
  active (stack st) = false \/ "InstructionCount_h" ∈ env st ->
  steps include_effect st (included n) = Some st.
Proof.
  intros Hskip. induction n as [|n IH]; [done|].
  by rewrite included_S, steps_app, header_again.
Qed.

Lemma preprocess_steps defined ls st :
  steps include_effect {| env := defined; stack := []; out := [] |} ls = Some st ->
  stack st = [] ->
  preprocess include_effect defined ls = Some (env st, out st).
Proof. unfold preprocess. by intros -> ->. Qed.

(** Where the text is kept and the guard is not defined, the only way for
    the model to stop is a macro with the name of one of the declaration's
    identifiers. *)
Lemma header_first_cases st :
  active (stack st) = true ->
  "InstructionCount_h" ∉ env st ->
  steps include_effect st (lines_of InstructionCount_h) =
  if uses_macro (after_header include_effect (env st))
       [TIdent "uint64_t"; TIdent "get_current_instruction_count";
        TPunct "("; TPunct ")"; TPunct ";"]
  then None
  else Some {| env := after_header include_effect (env st);
               stack := stack st;
               out := (out st ++ the_items)%list |}.
Proof.
  intros Hact Hg. rewrite header_lines, steps_app, steps_blank.
  cbn [steps step stack env out active frame_active parent_active condition in_else].
  unfold after_header.
  rewrite Hact, (bool_decide_eq_true_2 _ Hg). cbn [andb xorb].
  rewrite (bool_decide_eq_false_2 _ Hg).
  cbn [steps step stack env out active frame_active parent_active condition in_else
       andb xorb].
  destruct (uses_macro _ _); [done|]. by rewrite <- app_assoc.
Qed.

(** X1: read for the first time, in a translation unit where its guard
    macro is not defined and no macro bears the name of one of the
    declaration's identifiers, the header defines its guard, includes
    <stdint.h> before anything else, and hands on the one declaration; apart
    from the guard and what <stdint.h> does, it changes no macro. *)
Theorem first_inclusion defined :
  "InstructionCount_h" ∉ defined ->
  "uint64_t" ∉ after_header include_effect defined ->
  "get_current_instruction_count" ∉ after_header include_effect defined ->
  preprocess include_effect defined (included 1)
  = Some (include_effect "stdint.h" ({[ "InstructionCount_h" ]} ∪ defined), the_items)
  /\ includes the_items = ["stdint.h"]
  /\ declared the_items = [DFun the_declaration].
Proof.
  intros Hg H1 H2. split; [|by vm_compute].
  apply (preprocess_steps defined (included 1)
           {| env := after_header include_effect defined; stack := [];
              out := the_items |}); [|done].
  unfold included. cbn [replicate concat]. rewrite app_nil_r.
  by rewrite header_first.
Qed.

(** X2: where the guard macro is already defined (the header was read
    before, or the client defined a macro of that name), including the
    header any number of times hands on nothing: no declaration, no
    include, and the defined macros stay as they are. *)
Theorem guard_defined_declares_nothing defined n :
  "InstructionCount_h" ∈ defined ->
  preprocess include_effect defined (included n) = Some (defined, [])
  /\ declared [] = [].
Proof.
  intros Hg. split; [|done].
  apply (preprocess_steps defined (included n)
           {| env := defined; stack := []; out := [] |}); [|done].
  apply included_again. by right.
Qed.

(** X3: the header may be included again and again.  Provided <stdint.h>
    leaves the guard defined, whenever one inclusion of the header
    preprocesses to a result, n+1 inclusions preprocess to that same result:
    the function is then declared once if the guard was not defined
    beforehand, and not at all if it was. *)
Theorem repeated_inclusion defined n r :
  "InstructionCount_h" ∈ after_header include_effect defined ->
  preprocess include_effect defined (included 1) = Some r ->
  preprocess include_effect defined (included (S n)) = Some r
  /\ declared r.2 = (if bool_decide ("InstructionCount_h" ∈ defined)
                     then []
                     else [DFun the_declaration]).
Proof.
  intros Hkept Hone.
  assert (included 1 = lines_of InstructionCount_h) as Hinc
    by (unfold included; cbn [replicate concat]; apply app_nil_r).
  unfold preprocess in Hone. rewrite Hinc in Hone.
  destruct (decide ("InstructionCount_h" ∈ defined)) as [Hg|Hg].
  - rewrite (bool_decide_eq_true_2 _ Hg).
    rewrite header_again in Hone by (by right). injection Hone as <-.
    split; [|done].
    apply (preprocess_steps defined (included (S n))
             {| env := defined; stack := []; out := [] |}); [|done].
    apply included_again. by right.
  - rewrite (bool_decide_eq_false_2 _ Hg).
    rewrite header_first_cases in Hone by done. cbn [env stack out] in Hone.
    destruct (uses_macro _ _) eqn:Hclash; [done|]. injection Hone as <-.
    split; [|by vm_compute].
    apply (preprocess_steps defined (included (S n))
             {| env := after_header include_effect defined; stack := [];
                out := the_items |}); [|done].
    rewrite included_S, steps_app, header_first_cases by done.
    cbn [env stack out]. rewrite Hclash.
    apply included_again. by right.
Qed.

(** X4: wherever the header is read, it closes the one conditional it
    opens: the conditionals open around it are afterwards what they were,
    what was handed on before stays and is only added to, and inside text
    that is skipped the header does nothing at all. *)
Theorem header_is_balanced st st' :
  steps include_effect st (lines_of InstructionCount_h) = Some st' ->
  stack st' = stack st
  /\ (exists items, out st' = (out st ++ items)%list)
  /\ (active (stack st) = false -> st' = st).
Proof.
  intros Hrun.
  destruct (active (stack st)) eqn:Hact;
    [destruct (decide ("InstructionCount_h" ∈ env st)) as [Hg|Hg]|].
  - rewrite header_again in Hrun by (by right). injection Hrun as <-.
    split_and!; [done| |done]. exists []. by rewrite app_nil_r.
  - rewrite header_first_cases in Hrun by done.
    destruct (uses_macro _ _); [done|]. injection Hrun as <-.
    split_and!; [done| |done]. by exists the_items.
  - rewrite header_again in Hrun by (by left). injection Hrun as <-.
    split_and!; [done| |done]. exists []. by rewrite app_nil_r.
Qed.

End WithIncludes.

Lemma first_inclusion_witness :
  ("InstructionCount_h" ∉ (∅ : gset string))
  /\ preprocess example_include_effect ∅ (included 1)
     = Some (example_include_effect "stdint.h" ({[ "InstructionCount_h" ]} ∪ ∅),
             the_items)
  /\ includes the_items = ["stdint.h"]
  /\ declared the_items = [DFun the_declaration].
Proof.
  split; [compute_done|].
  apply (first_inclusion example_include_effect ∅); compute_done.
Defined.

Lemma guard_defined_declares_nothing_witness :
  ("InstructionCount_h" ∈ ({[ "InstructionCount_h" ]} : gset string))
  /\ preprocess example_include_effect {[ "InstructionCount_h" ]} (included 2)
     = Some ({[ "InstructionCount_h" ]}, [])
  /\ declared [] = [].
Proof.
  split; [compute_done|].
  apply (guard_defined_declares_nothing example_include_effect
           {[ "InstructionCount_h" ]} 2).
  compute_done.
Defined.

Lemma repeated_inclusion_witness :
  ("InstructionCount_h" ∈ after_header example_include_effect ∅)
  /\ preprocess example_include_effect ∅ (included 1)
     = Some (after_header example_include_effect ∅, the_items)
  /\ preprocess example_include_effect ∅ (included 3)
     = Some (after_header example_include_effect ∅, the_items)
  /\ declared (after_header example_include_effect ∅, the_items).2
     = (if bool_decide ("InstructionCount_h" ∈ (∅ : gset string))
        then []
        else [DFun the_declaration]).
Proof.
  assert ("InstructionCount_h" ∈ after_header example_include_effect ∅) as Hkept
    by compute_done.
  assert (preprocess example_include_effect ∅ (included 1)
          = Some (after_header example_include_effect ∅, the_items)) as Hone
    by (vm_compute; reflexivity).
  split; [exact Hkept|]. split; [exact Hone|].
  apply (repeated_inclusion example_include_effect ∅ 2
           (after_header example_include_effect ∅, the_items) Hkept Hone).
Defined.

Lemma header_is_balanced_witness :
  steps example_include_effect example_nested (lines_of InstructionCount_h)
  = Some example_nested
  /\ steps example_include_effect example_fresh (lines_of InstructionCount_h)
     = Some example_read
  /\ stack example_read = stack example_fresh
  /\ (exists items, out example_read = (out example_fresh ++ items)%list)
  /\ (active (stack example_fresh) = false -> example_read = example_fresh).
Proof.
  split; [vm_compute; reflexivity|].
  assert (steps example_include_effect example_fresh (lines_of InstructionCount_h)
          = Some example_read) as Hrun by (vm_compute; reflexivity).
  split; [exact Hrun|].
  apply (header_is_balanced example_include_effect example_fresh example_read Hrun).
Defined.

End PreprocessorFacts.
